(** * Bigcommerce API Connection (connection.js): model and properties

    A shallow embedding of [connection.js]: the [Connection] constructor,
    [getRequestOptions], and the four promise-returning operations [get],
    [put], [post] and [delete], run on an explicit model of the event loop
    (promises, requests handed to the transport, timers, and exceptions
    that escape a callback). *)

From Stdlib Require Import ZArith Lia Ascii String.
From stdpp Require Import base option strings pretty list gmap.

Local Open Scope string_scope.
Local Open Scope Z_scope.

(** ** JavaScript values the module computes with *)

(** Exceptions and error objects. [Error] is the plain [new Error(message)];
    [ReferenceError] is raised by reading an unbound identifier and
    [SyntaxError] by [JSON.parse] on text that is not JSON. *)
Inductive Exception : Type :=
  | Error (message : string)
  | ReferenceError (identifier : string)
  | SyntaxError (text : string).

(** *** The built-ins the module takes from its environment

    [Value] is the type of structured (JSON-serialisable) values.
    [JSON_parse] returns [None] where [JSON.parse] throws a [SyntaxError].
    [JSNumber] is the type of numbers, with the literals [js_number], the
    operators [+] and [*] on numbers and [parseInt] of a string or of
    [undefined] ([None]).
    [global_retry] is what the identifier [retry] is bound to in the global
    scope; the module declares no such variable, so reading it raises a
    [ReferenceError] unless the embedding program defined one. *)
Class Runtime : Type := {
  Value : Type;
  truthy : Value -> bool;
  JSON_parse : string -> option Value;
  JSON_stringify : Value -> string;
  JSNumber : Type;
  js_number : Z -> JSNumber;
  js_add : JSNumber -> JSNumber -> JSNumber;
  js_mul : JSNumber -> JSNumber -> JSNumber;
  parseInt : option string -> JSNumber;
  global_retry : option Z
}.

(** ** The configuration object and the constructor *)

(** The [config] argument. A field that is [None] is [undefined] on the
    object; fields that are present hold strings. [maxConcurrentRequests]
    is the option the documentation advertises for connection pooling. *)
Record Config : Type := {
  hash : option string;
  token : option string;
  cid : option string;
  api : option string;
  maxConcurrentRequests : option nat
}.

(** An initialised [Connection] object: its [host] and [config] properties. *)
Record ConnectionObject : Type := {
  host : string;
  config : Config
}.

(** How a function call ends. *)
Inductive Completion (A : Type) : Type :=
  | Thrown (e : Exception)
  | Returned (a : A).
Arguments Thrown {A} e.
Arguments Returned {A} a.

(** What [this] is bound to when [Connection] is entered. *)
Inductive Receiver : Type :=
  | FreshInstance   (* entered through [new]: [this instanceof Connection] *)
  | NotAnInstance.  (* a plain call *)

(** Lines 43-60: the checks on [config], then the two assignments. *)
Definition initialise (config : option Config) : Completion ConnectionObject :=
  match config with
  | None =>
      Thrown (Error "Error: Connection needs to be initialized with a config parameter")
  | Some c =>
      match hash c, token c, cid c, api c with
      | None, _, _, _ =>
          Thrown (Error "Error: Connection needs store hash - config.hash.")
      | Some _, None, _, _ =>
          Thrown (Error "Error: Connection needs store oAuth token - config.token.")
      | Some _, Some _, None, _ =>
          Thrown (Error "Error: Connection needs app client id - config.cid.")
      | Some _, Some _, Some _, None =>
          Thrown (Error "Error: Connection needs BigComerce API URL - config.api.")
      | Some h, Some _, Some _, Some a =>
          Returned {| host := ((a +:+ "/stores/") +:+ h) +:+ "/v2"; config := c |}
      end
  end.

(** [new Connection(config)]: the function runs with a fresh instance as
    receiver, so the guard of line 39 is passed over. *)
Definition new_Connection (config : option Config) : Completion ConnectionObject :=
  initialise config.

(** [Connection] entered with receiver [this]. *)
Definition Connection (this : Receiver) (config : option Config)
  : Completion ConnectionObject :=
  match this with
  | NotAnInstance => new_Connection config
  | FreshInstance => initialise config
  end.

(** ** Requests *)

Inductive Method : Type := GET | PUT | POST | DELETE.

(** The options object handed to [request]. A header value is [None]
    when the configuration field it is read from is [undefined]; [body] is
    [None] for [null]. *)
Record RequestOptions : Type := {
  url : string;
  method : Method;
  headers : list (string * option string);
  body : option string
}.

(** The response object of the transport, as far as the callbacks read it. *)
Record Response : Type := {
  statusCode : Z;
  response_headers : gmap string string
}.

(** The three arguments [(err, res, body)] the transport passes to the
    callback: either an error, or a response with its raw body. *)
Inductive TransportResult : Type :=
  | Failed (err : Exception)
  | Answered (res : Response) (body : string).

Section Connector.
Context `{rt : Runtime}.

(** Line 98 (and 131, 164, 197): the value assigned to [timeout]. *)
Definition retry_timeout (res : Response) : JSNumber :=
  js_mul (js_add (parseInt (response_headers res !! "X-Retry-After")) (js_number 2))
         (js_number 1000).

(** Lines 216-230. [data = None] is the argument left out ([undefined]). *)
Definition getRequestOptions (this : ConnectionObject)
    (method : Method) (endpoint : string) (data : option Value) : RequestOptions :=
  {| url :=
       if negb (String.eqb (substring 0 1 endpoint) "/")
       then (host this +:+ "/") +:+ endpoint
       else host this +:+ endpoint;
     method := method;
     headers :=
       [ ("Accept", Some "application/json");
         ("Content-Type", Some "application/json");
         ("X-Auth-Client", cid (config this));
         ("X-Auth-Token", token (config this)) ];
     body :=
       match data with
       | Some d => if truthy d then Some (JSON_stringify d) else None
       | None => None
       end |}.

(** ** The event loop *)

(** What a caller's promise was rejected with: the transport's error
    object, or the raw response body. *)
Inductive Reason : Type :=
  | ReasonError (err : Exception)
  | ReasonBody (body : string).

(** A promise is pending, settled, or has been resolved with another
    promise (number [q]) whose outcome it takes over. *)
Inductive PromiseState : Type :=
  | Pending
  | Fulfilled (v : Value)
  | Rejected (r : Reason)
  | Adopted (q : nat).

(** A request the transport has not answered yet. Its callback closes over
    the [fulfill] and [reject] of promise [flight_promise] and over
    [endpoint]. *)
Record InFlight : Type := {
  flight_options : RequestOptions;
  flight_promise : nat;
  flight_endpoint : string
}.

(** A timer set by [setTimeout]: the closure
    [function() { fulfill(self.get(endpoint)); }] and its delay. *)
Record Timer : Type := {
  timer_delay : Z;
  timer_promise : nat;
  timer_endpoint : string
}.

Record World : Type := {
  connection : ConnectionObject;      (* the object the methods run on *)
  promises : list PromiseState;       (* promise number p is at index p *)
  inflight : gmap nat InFlight;       (* requests awaiting their answer *)
  issued : nat;                       (* requests handed to the transport so far *)
  timers : gmap nat Timer;            (* timers that have not fired *)
  armed : nat;                        (* timers set so far *)
  uncaught : list Exception           (* exceptions that escaped a callback *)
}.

Definition boot (c : ConnectionObject) : World :=
  {| connection := c; promises := []; inflight := ∅; issued := 0%nat;
     timers := ∅; armed := 0%nat; uncaught := [] |}.

Definition with_promises (ps : list PromiseState) (w : World) : World :=
  {| connection := connection w; promises := ps; inflight := inflight w;
     issued := issued w; timers := timers w; armed := armed w;
     uncaught := uncaught w |}.

(** [new Promise(...)]: a fresh pending promise, and its number. *)
Definition new_Promise (w : World) : nat * World :=
  (length (promises w), with_promises (promises w ++ [Pending]) w).

(** [fulfill] and [reject] act on a pending promise only. *)
Definition settle (p : nat) (s : PromiseState) (w : World) : World :=
  match promises w !! p with
  | Some Pending => with_promises (<[p := s]> (promises w)) w
  | _ => w
  end.

Definition reject (p : nat) (r : Reason) : World -> World := settle p (Rejected r).
Definition fulfill (p : nat) (v : Value) : World -> World := settle p (Fulfilled v).
Definition fulfill_with_promise (p q : nat) : World -> World := settle p (Adopted q).

(** [request(options, callback)]. *)
Definition request (f : InFlight) (w : World) : World :=
  {| connection := connection w; promises := promises w;
     inflight := <[issued w := f]> (inflight w);
     issued := S (issued w); timers := timers w; armed := armed w;
     uncaught := uncaught w |}.

(** The transport is done with request [i]. *)
Definition answered (i : nat) (w : World) : World :=
  {| connection := connection w; promises := promises w;
     inflight := base.delete i (inflight w);
     issued := issued w; timers := timers w; armed := armed w;
     uncaught := uncaught w |}.

Definition setTimeout (t : Timer) (w : World) : World :=
  {| connection := connection w; promises := promises w;
     inflight := inflight w; issued := issued w;
     timers := <[armed w := t]> (timers w); armed := S (armed w);
     uncaught := uncaught w |}.

Definition fired (j : nat) (w : World) : World :=
  {| connection := connection w; promises := promises w;
     inflight := inflight w; issued := issued w;
     timers := base.delete j (timers w); armed := armed w;
     uncaught := uncaught w |}.

(** An exception leaves the callback: nothing catches it. *)
Definition throw (e : Exception) (w : World) : World :=
  {| connection := connection w; promises := promises w;
     inflight := inflight w; issued := issued w;
     timers := timers w; armed := armed w;
     uncaught := e :: uncaught w |}.

(** The callback passed to [request]. The four methods carry the same
    text (lines 92-105, 125-138, 158-171, 190-203); in each of them the
    timer's closure calls [self.get(endpoint)] and the delay argument is
    the identifier [retry]. [p] is the promise whose [fulfill] and
    [reject] the callback closes over. *)
Definition callback (p : nat) (endpoint : string) (r : TransportResult)
    (w : World) : World :=
  match r with
  | Failed err => reject p (ReasonError err) w
  | Answered res body =>
      if negb (statusCode res =? 200) then reject p (ReasonBody body) w
      else if statusCode res =? 429 then
        let timeout := retry_timeout res in
        match global_retry with
        | None => throw (ReferenceError "retry") w
        | Some retry =>
            setTimeout {| timer_delay := retry; timer_promise := p;
                          timer_endpoint := endpoint |} w
        end
      else
        match JSON_parse body with
        | None => throw (SyntaxError body) w
        | Some v => fulfill p v w
        end
  end.

(** The body shared by the four methods: a new promise whose executor
    hands the options to the transport. *)
Definition send (method : Method) (endpoint : string) (data : option Value)
    (w : World) : nat * World :=
  let self := connection w in
  let '(p, w) := new_Promise w in
  (p, request {| flight_options := getRequestOptions self method endpoint data;
                 flight_promise := p; flight_endpoint := endpoint |} w).

Definition get (endpoint : string) : World -> nat * World :=
  send GET endpoint None.
Definition put (endpoint : string) (data : option Value) : World -> nat * World :=
  send PUT endpoint data.
Definition post (endpoint : string) (data : option Value) : World -> nat * World :=
  send POST endpoint data.
Definition delete (endpoint : string) : World -> nat * World :=
  send DELETE endpoint None.

(** The timer's closure: [fulfill(self.get(endpoint))]. *)
Definition retry_closure (t : Timer) (w : World) : World :=
  let '(q, w) := get (timer_endpoint t) w in
  fulfill_with_promise (timer_promise t) q w.

(** What can happen: the caller invokes a method, the transport answers
    request [i], timer [j] fires. *)
Inductive Event : Type :=
  | Call (method : Method) (endpoint : string) (data : option Value)
  | Respond (i : nat) (r : TransportResult)
  | Elapse (j : nat).

Definition invoke (method : Method) (endpoint : string) (data : option Value)
    : World -> nat * World :=
  match method with
  | GET => get endpoint
  | PUT => put endpoint data
  | POST => post endpoint data
  | DELETE => delete endpoint
  end.

Definition step (e : Event) (w : World) : World :=
  match e with
  | Call method endpoint data => snd (invoke method endpoint data w)
  | Respond i r =>
      match inflight w !! i with
      | Some f => callback (flight_promise f) (flight_endpoint f) r (answered i w)
      | None => w
      end
  | Elapse j =>
      match timers w !! j with
      | Some t => retry_closure t (fired j w)
      | None => w
      end
  end.

Fixpoint run (events : list Event) (w : World) : World :=
  match events with
  | [] => w
  | e :: rest => run rest (step e w)
  end.

(** What a holder of promise [p] observes: adoption is followed. *)
Fixpoint observe (fuel : nat) (ps : list PromiseState) (p : nat) : PromiseState :=
  match ps !! p with
  | Some (Adopted q) =>
      match fuel with
      | O => Pending
      | S fuel => observe fuel ps q
      end
  | Some s => s
  | None => Pending
  end.

Definition outcome (w : World) (p : nat) : PromiseState :=
  observe (length (promises w)) (promises w) p.

End Connector.

(** ** A concrete runtime

    A reader and a printer for the fragment of JSON with integer numbers
    and without [\u] escapes, and integer arithmetic with [parseInt] on
    ASCII text, which is enough to run the module on concrete payloads.
    Text outside JSON is refused, as [JSON.parse] refuses it. *)
Module MiniJSON.

(** Numbers for the concrete runtime: an exact integer or NaN (doubles
    are not modelled). *)
Inductive number : Type :=
  | NaN
  | Num (z : Z).

Definition add (a b : number) : number :=
  match a, b with
  | Num x, Num y => Num (x + y)
  | _, _ => NaN
  end.

Definition mul (a b : number) : number :=
  match a, b with
  | Num x, Num y => Num (x * y)
  | _, _ => NaN
  end.

(** [parseInt] with no radix argument, on ASCII text: of the white space
    JavaScript skips, only the ASCII characters are skipped here. *)

Definition is_whitespace (a : ascii) : bool :=
  let n := nat_of_ascii a in
  ((9 <=? n)%nat && (n <=? 13)%nat) || (n =? 32)%nat.

Fixpoint trim_start (s : string) : string :=
  match s with
  | String a rest => if is_whitespace a then trim_start rest else s
  | EmptyString => s
  end.

(** The value of [a] as a digit of the given radix (10 or 16). *)
Definition digit_value (radix : Z) (a : ascii) : option Z :=
  let n := Z.of_nat (nat_of_ascii a) in
  if (48 <=? n) && (n <=? 57) then Some (n - 48)
  else if (radix =? 16) && (97 <=? n) && (n <=? 102) then Some (n - 87)
  else if (radix =? 16) && (65 <=? n) && (n <=? 70) then Some (n - 55)
  else None.

(** Reads the longest prefix of digits; [acc] is [None] until a digit is seen. *)
Fixpoint read_digits (radix : Z) (s : string) (acc : option Z) : option Z :=
  match s with
  | String a rest =>
      match digit_value radix a with
      | Some d => read_digits radix rest (Some (default 0 acc * radix + d))
      | None => acc
      end
  | EmptyString => acc
  end.

(** An optional sign in front of the digits. *)
Definition strip_sign (s : string) : Z * string :=
  match s with
  | String "-" rest => (-1, rest)
  | String "+" rest => (1, rest)
  | _ => (1, s)
  end.

(** A [0x] or [0X] prefix selects radix 16; otherwise the radix is 10. *)
Definition strip_radix (s : string) : Z * string :=
  match s with
  | String "0" (String "x" rest) => (16, rest)
  | String "0" (String "X" rest) => (16, rest)
  | _ => (10, s)
  end.

(** [parseInt(x)]: [x = None] is [undefined], which is first converted to
    the string "undefined". *)
Definition parse_int (x : option string) : number :=
  let s := trim_start (default "undefined" x) in
  let '(sign, s) := strip_sign s in
  let '(radix, s) := strip_radix s in
  match read_digits radix s None with
  | Some v => Num (sign * v)
  | None => NaN
  end.


#[warnings="-register-all"]
Inductive json : Type :=
  | JNull
  | JBool (b : bool)
  | JNumber (z : Z)
  | JString (s : string)
  | JArray (items : list json)
  | JObject (members : list (string * json)).

(** [ToBoolean]: [null], [false], [0] and the empty string are falsy. *)
Definition to_boolean (v : json) : bool :=
  match v with
  | JNull => false
  | JBool b => b
  | JNumber z => negb (z =? 0)
  | JString s => negb (String.eqb s EmptyString)
  | JArray _ | JObject _ => true
  end.

Definition parser (A : Type) : Type := string -> option (A * string).

Definition is_json_space (a : ascii) : bool :=
  let n := nat_of_ascii a in
  (n =? 32)%nat || (n =? 9)%nat || (n =? 10)%nat || (n =? 13)%nat.

Fixpoint skip_space (s : string) : string :=
  match s with
  | String a rest => if is_json_space a then skip_space rest else s
  | EmptyString => s
  end.

(** Consumes [word] at the head of [s]. *)
Fixpoint expect (word s : string) : option string :=
  match word, s with
  | EmptyString, _ => Some s
  | String a word, String b s => if Ascii.eqb a b then expect word s else None
  | String _ _, EmptyString => None
  end.

(** The characters of a string literal after its opening quote. *)
Fixpoint read_string (s : string) : option (string * string) :=
  match s with
  | EmptyString => None
  | String "034" rest => Some (EmptyString, rest)
  | String "\" (String e rest) =>
      let unescaped :=
        match e with
        | "034" => Some "034"%char
        | "\" => Some "\"%char
        | "/" => Some "/"%char
        | "b" => Some "008"%char
        | "f" => Some "012"%char
        | "n" => Some "010"%char
        | "r" => Some "013"%char
        | "t" => Some "009"%char
        | _ => None
        end%char in
      match unescaped, read_string rest with
      | Some a, Some (text, rest) => Some (String a text, rest)
      | _, _ => None
      end
  | String a rest =>
      if (nat_of_ascii a <? 32)%nat then None
      else match read_string rest with
           | Some (text, rest) => Some (String a text, rest)
           | None => None
           end
  end.

(** An integer literal: no leading zero, no fraction, no exponent. *)
Definition read_number (s : string) : option (Z * string) :=
  let '(sign, s) :=
    match s with
    | String "-" rest => (-1, rest)
    | _ => (1, s)
    end in
  let fix digits (s : string) (acc : Z) : Z * string :=
    match s with
    | String a rest =>
        match digit_value 10 a with
        | Some d => digits rest (acc * 10 + d)
        | None => (acc, s)
        end
    | EmptyString => (acc, s)
    end in
  match s with
  | String a rest =>
      match digit_value 10 a with
      | Some d =>
          let '(v, rest') := if d =? 0 then (0, rest) else digits rest d in
          match rest' with
          | String "." _ | String "e" _ | String "E" _ => None
          | String b _ =>
              match digit_value 10 b with
              | Some _ => None
              | None => Some (sign * v, rest')
              end
          | EmptyString => Some (sign * v, rest')
          end
      | None => None
      end
  | EmptyString => None
  end.

(** [item (, item)* close], the opening bracket and the empty case
    having been dealt with. *)
Fixpoint read_sequence {A : Type} (item : parser A) (close : ascii)
    (fuel : nat) (s : string) : option (list A * string) :=
  match fuel with
  | O => None
  | S fuel =>
      match item s with
      | Some (x, rest) =>
          match skip_space rest with
          | String c rest =>
              if Ascii.eqb c close then Some ([x], rest)
              else if Ascii.eqb c "," then
                match read_sequence item close fuel rest with
                | Some (xs, rest) => Some (x :: xs, rest)
                | None => None
                end
              else None
          | EmptyString => None
          end
      | None => None
      end
  end.

Definition read_member (value : parser json) : parser (string * json) :=
  fun s =>
    match skip_space s with
    | String "034" rest =>
        match read_string rest with
        | Some (key, rest) =>
            match skip_space rest with
            | String ":" rest =>
                match value rest with
                | Some (v, rest) => Some ((key, v), rest)
                | None => None
                end
            | _ => None
            end
        | None => None
        end
    | _ => None
    end.

Fixpoint read_value (fuel : nat) (s : string) : option (json * string) :=
  match fuel with
  | O => None
  | S fuel =>
      match skip_space s with
      | String "n" _ as s => rest ← expect "null" s; Some (JNull, rest)
      | String "t" _ as s => rest ← expect "true" s; Some (JBool true, rest)
      | String "f" _ as s => rest ← expect "false" s; Some (JBool false, rest)
      | String "034" rest => '(text, rest) ← read_string rest; Some (JString text, rest)
      | String "[" rest =>
          match skip_space rest with
          | String "]" rest => Some (JArray [], rest)
          | _ => '(items, rest) ← read_sequence (read_value fuel) "]" fuel rest;
                 Some (JArray items, rest)
          end
      | String "{" rest =>
          match skip_space rest with
          | String "}" rest => Some (JObject [], rest)
          | _ => '(members, rest) ←
                   read_sequence (read_member (read_value fuel)) "}" fuel rest;
                 Some (JObject members, rest)
          end
      | s => '(z, rest) ← read_number s; Some (JNumber z, rest)
      end
  end.

(** The whole text must be one value, spaces around it allowed. *)
Definition parse (text : string) : option json :=
  match read_value (S (String.length text)) text with
  | Some (v, rest) =>
      match skip_space rest with
      | EmptyString => Some v
      | _ => None
      end
  | None => None
  end.

Fixpoint quote_chars (s : string) : string :=
  match s with
  | EmptyString => EmptyString
  | String "034" rest => String "\" (String "034" (quote_chars rest))
  | String "\" rest => String "\" (String "\" (quote_chars rest))
  | String "010" rest => String "\" (String "n" (quote_chars rest))
  | String "013" rest => String "\" (String "r" (quote_chars rest))
  | String "009" rest => String "\" (String "t" (quote_chars rest))
  | String a rest => String a (quote_chars rest)
  end.

Definition quote (s : string) : string :=
  String "034" (quote_chars s +:+ String "034" EmptyString).

Fixpoint stringify (v : json) : string :=
  match v with
  | JNull => "null"
  | JBool true => "true"
  | JBool false => "false"
  | JNumber z => pretty z
  | JString s => quote s
  | JArray items =>
      "[" +:+ String.concat "," (map stringify items) +:+ "]"
  | JObject members =>
      "{" +:+ String.concat ","
                (map (fun m => quote (fst m) +:+ ":" +:+ stringify (snd m)) members)
          +:+ "}"
  end.

(** No global [retry] is defined. *)
#[export] Instance runtime : Runtime := {|
  Value := json;
  truthy := to_boolean;
  JSON_parse := parse;
  JSON_stringify := stringify;
  JSNumber := number;
  js_number := Num;
  js_add := add;
  js_mul := mul;
  parseInt := parse_int;
  global_retry := None
|}.

End MiniJSON.

(** A required field is absent from [config], or no [config] was passed. *)
Definition field_absent (config : option Config) : Prop :=
  match config with
  | None => True
  | Some c => hash c = None \/ token c = None \/ cid c = None \/ api c = None
  end.

(** Payloads are written with apostrophes where JSON has double quotes. *)
Definition json_text (s : string) : string :=
  string_of_list_ascii
    (map (fun a => if Ascii.eqb a "'" then "034"%char else a) (list_ascii_of_string s)).

Section Reachable.
Context `{rt : Runtime}.

(** What holds of every world the event loop reaches from [boot]: no
    timer is set; every request in flight has a number below [issued] and
    a pending promise; no two requests in flight share a promise. *)
Record consistent (w : World) : Prop := {
  no_timers : timers w = ∅;
  flights_pending : forall i f,
    inflight w !! i = Some f ->
    (i < issued w)%nat /\ promises w !! flight_promise f = Some Pending;
  flights_distinct : forall i j f g,
    inflight w !! i = Some f -> inflight w !! j = Some g ->
    flight_promise f = flight_promise g -> i = j
}.

(** Promise [p] is pending and no request in flight can settle it. *)
Definition abandoned (w : World) (p : nat) : Prop :=
  promises w !! p = Some Pending /\
  forall i f, inflight w !! i = Some f -> flight_promise f <> p.

(** What [callback] makes of a pending promise, read off its branches:
    rejected for a transport error and for a status other than 200,
    fulfilled for a 200 whose body parses, left pending otherwise. *)
Definition verdict (r : TransportResult) : PromiseState :=
  match r with
  | Failed err => Rejected (ReasonError err)
  | Answered res body =>
      if negb (statusCode res =? 200) then Rejected (ReasonBody body)
      else match JSON_parse body with
           | Some v => Fulfilled v
           | None => Pending
           end
  end.

(** The exception that leaves [callback], if any. *)
Definition thrown (r : TransportResult) : list Exception :=
  match r with
  | Failed _ => []
  | Answered res body =>
      if negb (statusCode res =? 200) then []
      else match JSON_parse body with
           | Some _ => []
           | None => [SyntaxError body]
           end
  end.

(** Event [e] is the transport's answer to request [i]. *)
Definition answers (i : nat) (e : Event) : bool :=
  match e with
  | Respond j _ => Nat.eqb j i
  | _ => false
  end.

(** The number of method calls among [events]. *)
Fixpoint count_calls (events : list Event) : nat :=
  match events with
  | [] => 0%nat
  | Call _ _ _ :: rest => S (count_calls rest)
  | _ :: rest => count_calls rest
  end.

(** Every request in flight was built by [getRequestOptions] from the
    connection object of the world. *)
Definition addressed (w : World) : Prop :=
  forall i f, inflight w !! i = Some f ->
    exists m d, flight_options f
                = getRequestOptions (connection w) m (flight_endpoint f) d.

(** Only [SyntaxError]s of bodies that are not JSON have escaped. *)
Definition only_parse_failures (es : list Exception) : Prop :=
  Forall (fun e => exists body, e = SyntaxError body /\ JSON_parse body = None) es.

End Reachable.

(** ** Sample data *)

Definition sample_config : Config :=
  {| hash := Some "abc123"; token := Some "t0k3n"; cid := Some "client";
     api := Some "https://api.bigcommerce.com";
     maxConcurrentRequests := Some 2%nat |}.

Definition sample_connection : ConnectionObject :=
  {| host := "https://api.bigcommerce.com/stores/abc123/v2";
     config := sample_config |}.

Definition answer (status : Z) (retry_after : option string) : Response :=
  {| statusCode := status;
     response_headers :=
       match retry_after with
       | Some s => {[ "X-Retry-After" := s ]}
       | None => ∅
       end |}.

Definition price_10 : @Value MiniJSON.runtime :=
  MiniJSON.JObject [("price", MiniJSON.JNumber 10)].

Definition widget : @Value MiniJSON.runtime :=
  MiniJSON.JObject [("id", MiniJSON.JNumber 42); ("name", MiniJSON.JString "Widget")].

Definition sale : @Value MiniJSON.runtime :=
  MiniJSON.JObject [("name", MiniJSON.JString "Sale")].

(** The timer a [put] of [/products/1] would set. *)
Definition put_timer : Timer :=
  {| timer_delay := 3000; timer_promise := 0; timer_endpoint := "/products/1" |}.

(** ** The constructor *)

Lemma initialise_throws_iff (config : option Config) :
  (exists e, initialise config = Thrown e) <-> field_absent config.
Proof.
  destruct config as [c|]; simpl.
  - destruct (hash c), (token c), (cid c), (api c); split; intros Hx;
      try (destruct Hx as [e He]; discriminate He);
      try (destruct Hx as [?|[?|[?|?]]]; discriminate);
      eauto 6.
  - split; eauto.
Qed.

(** C5, amended: construction fails, with a thrown error and no object,
    exactly when no configuration is passed or one of the four required
    fields is absent; a field holding the empty string is accepted. *)
Theorem Connection_throws_iff_field_absent (this : Receiver) (config : option Config) :
  (exists e, Connection this config = Thrown e) <-> field_absent config.
Proof. destruct this; apply initialise_throws_iff. Qed.

(** C5 as stated fails: a store hash that is the empty string is accepted,
    and the object is built with an empty path segment. *)
Lemma Connection_accepts_empty_hash :
  Connection FreshInstance
    (Some {| hash := Some EmptyString; token := Some "t0k3n"; cid := Some "client";
             api := Some "https://api.bigcommerce.com";
             maxConcurrentRequests := None |})
  = Returned
      {| host := "https://api.bigcommerce.com/stores//v2";
         config := {| hash := Some EmptyString; token := Some "t0k3n";
                      cid := Some "client";
                      api := Some "https://api.bigcommerce.com";
                      maxConcurrentRequests := None |} |}.
Proof. reflexivity. Qed.

(** C6: with the four required fields present and non-empty the
    constructor returns, and the stored [host] is
    [api + '/stores/' + hash + '/v2']. *)
Theorem Connection_valid_config (this : Receiver) (c : Config) (h t i a : string) :
  hash c = Some h -> token c = Some t -> cid c = Some i -> api c = Some a ->
  h <> EmptyString -> t <> EmptyString -> i <> EmptyString -> a <> EmptyString ->
  Connection this (Some c)
  = Returned {| host := ((a +:+ "/stores/") +:+ h) +:+ "/v2"; config := c |}.
Proof.
  intros Hh Ht Hi Ha _ _ _ _.
  destruct this; unfold Connection, new_Connection, initialise;
    rewrite Hh, Ht, Hi, Ha; reflexivity.
Qed.

Lemma Connection_valid_config_witness :
  Connection FreshInstance
    (Some {| hash := Some "abc123"; token := Some "t0k3n"; cid := Some "client";
             api := Some "https://api.bigcommerce.com";
             maxConcurrentRequests := None |})
  = Returned
      {| host := "https://api.bigcommerce.com/stores/abc123/v2";
         config := {| hash := Some "abc123"; token := Some "t0k3n";
                      cid := Some "client";
                      api := Some "https://api.bigcommerce.com";
                      maxConcurrentRequests := None |} |}.
Proof.
  apply (Connection_valid_config FreshInstance _ "abc123" "t0k3n" "client"
           "https://api.bigcommerce.com"); first [reflexivity | discriminate].
Defined.

(** C10: called as a plain function, [Connection] returns what
    [new Connection] returns, for every argument. For a configuration
    with the four required fields it is the initialised object, with the
    configuration stored and [host] set to [api + '/stores/' + hash +
    '/v2']; where a field is absent, or no configuration is passed, both
    ways of calling throw the same error. *)
Theorem Connection_without_new (config : option Config) :
  (forall c h t i a,
     config = Some c ->
     hash c = Some h -> token c = Some t -> cid c = Some i -> api c = Some a ->
     Connection NotAnInstance config
       = Returned {| host := ((a +:+ "/stores/") +:+ h) +:+ "/v2"; config := c |} /\
     new_Connection config
       = Returned {| host := ((a +:+ "/stores/") +:+ h) +:+ "/v2"; config := c |}) /\
  (field_absent config ->
     exists e, Connection NotAnInstance config = Thrown e /\
               new_Connection config = Thrown e) /\
  Connection NotAnInstance config = new_Connection config /\
  Connection NotAnInstance config = Connection FreshInstance config.
Proof.
  split; [|split; [|split; reflexivity]].
  - intros c h t i a -> Hh Ht Hi Ha.
    unfold Connection, new_Connection, initialise.
    rewrite Hh, Ht, Hi, Ha. split; reflexivity.
  - intros Habs. apply initialise_throws_iff in Habs as [e He].
    exists e. split; exact He.
Qed.

Lemma Connection_without_new_witness :
  Connection NotAnInstance (Some sample_config) = Returned sample_connection /\
  new_Connection (Some sample_config) = Returned sample_connection.
Proof.
  exact (proj1 (Connection_without_new (Some sample_config))
           sample_config "abc123" "t0k3n" "client" "https://api.bigcommerce.com"
           eq_refl eq_refl eq_refl eq_refl eq_refl).
Defined.

(** ** The event loop: frame and invariant lemmas *)

Section Properties.
Context `{rt : Runtime}.

Lemma settle_frame (p : nat) (s : PromiseState) (w : World) :
  connection (settle p s w) = connection w /\
  inflight (settle p s w) = inflight w /\
  issued (settle p s w) = issued w /\
  timers (settle p s w) = timers w /\
  armed (settle p s w) = armed w /\
  uncaught (settle p s w) = uncaught w.
Proof. unfold settle. destruct (promises w !! p) as [[]|]; repeat split. Qed.

Lemma settle_pending (p : nat) (s : PromiseState) (w : World) :
  promises w !! p = Some Pending ->
  promises (settle p s w) = <[p := s]> (promises w).
Proof. intros Hp. unfold settle. rewrite Hp. reflexivity. Qed.

Lemma settle_lookup (p : nat) (s : PromiseState) (w : World) :
  promises w !! p = Some Pending -> promises (settle p s w) !! p = Some s.
Proof.
  intros Hp. rewrite settle_pending by exact Hp.
  apply list_lookup_insert_eq. apply lookup_lt_Some in Hp. exact Hp.
Qed.

Lemma settle_lookup_ne (p q : nat) (s : PromiseState) (w : World) :
  p <> q -> promises (settle p s w) !! q = promises w !! q.
Proof.
  intros Hne. unfold settle.
  destruct (promises w !! p) as [[]|]; try reflexivity.
  simpl. apply list_lookup_insert_ne. exact Hne.
Qed.

Lemma callback_not_200 (p : nat) (endpoint : string) (res : Response)
    (body : string) (w : World) :
  statusCode res <> 200 ->
  callback p endpoint (Answered res body) w = reject p (ReasonBody body) w.
Proof.
  intros Hs. unfold callback.
  destruct (Z.eqb_spec (statusCode res) 200); [contradiction | reflexivity].
Qed.

Lemma callback_200 (p : nat) (endpoint : string) (res : Response)
    (body : string) (w : World) :
  statusCode res = 200 ->
  callback p endpoint (Answered res body) w
  = match JSON_parse body with
    | None => throw (SyntaxError body) w
    | Some v => fulfill p v w
    end.
Proof. intros Hs. unfold callback. rewrite Hs. reflexivity. Qed.

(** The branch that sets the timer is never taken: no answer makes a
    callback arm a timer, hand a request to the transport or touch the
    connection object. *)
Lemma callback_frame (p : nat) (endpoint : string) (r : TransportResult) (w : World) :
  connection (callback p endpoint r w) = connection w /\
  inflight (callback p endpoint r w) = inflight w /\
  issued (callback p endpoint r w) = issued w /\
  timers (callback p endpoint r w) = timers w /\
  armed (callback p endpoint r w) = armed w.
Proof.
  destruct r as [err|res body].
  - simpl. unfold reject. pose proof (settle_frame p (Rejected (ReasonError err)) w).
    tauto.
  - destruct (Z.eq_dec (statusCode res) 200) as [Hs|Hs].
    + rewrite callback_200 by exact Hs. destruct (JSON_parse body) as [v|].
      * unfold fulfill. pose proof (settle_frame p (Fulfilled v) w). tauto.
      * repeat split.
    + rewrite callback_not_200 by exact Hs.
      unfold reject. pose proof (settle_frame p (Rejected (ReasonBody body)) w).
      tauto.
Qed.

Lemma callback_promises_ne (p q : nat) (endpoint : string) (r : TransportResult)
    (w : World) :
  p <> q -> promises (callback p endpoint r w) !! q = promises w !! q.
Proof.
  intros Hne. destruct r as [err|res body].
  - apply settle_lookup_ne, Hne.
  - destruct (Z.eq_dec (statusCode res) 200) as [Hs|Hs].
    + rewrite callback_200 by exact Hs. destruct (JSON_parse body).
      * apply settle_lookup_ne, Hne.
      * reflexivity.
    + rewrite callback_not_200 by exact Hs. apply settle_lookup_ne, Hne.
Qed.

(** A call appends one pending promise and puts one request in flight. *)
Lemma send_world (method : Method) (endpoint : string) (data : option Value) (w : World) :
  send method endpoint data w
  = (length (promises w),
     {| connection := connection w;
        promises := promises w ++ [Pending];
        inflight :=
          <[issued w :=
              {| flight_options := getRequestOptions (connection w) method endpoint data;
                 flight_promise := length (promises w);
                 flight_endpoint := endpoint |}]> (inflight w);
        issued := S (issued w);
        timers := timers w; armed := armed w; uncaught := uncaught w |}).
Proof. reflexivity. Qed.

Lemma invoke_send (method : Method) (endpoint : string) (data : option Value) (w : World) :
  invoke method endpoint data w
  = send method endpoint
      match method with GET | DELETE => None | PUT | POST => data end w.
Proof. destruct method; reflexivity. Qed.

Lemma boot_consistent (c : ConnectionObject) : consistent (boot c).
Proof.
  split; simpl.
  - reflexivity.
  - intros i f Hf. rewrite lookup_empty in Hf. discriminate.
  - intros i j f g Hf. rewrite lookup_empty in Hf. discriminate.
Qed.

Lemma step_consistent (e : Event) (w : World) : consistent w -> consistent (step e w).
Proof.
  intros [Ht Hp Hd]. destruct e as [m endpoint data|i r|j]; simpl.
  - rewrite invoke_send, send_world. simpl. split; simpl.
    + exact Ht.
    + intros i f Hf. destruct (decide (issued w = i)) as [<-|Hne].
      * rewrite lookup_insert_eq in Hf. injection Hf as <-. simpl. split; [lia|].
        rewrite lookup_app_r by lia. rewrite Nat.sub_diag. reflexivity.
      * rewrite lookup_insert_ne in Hf by exact Hne.
        destruct (Hp i f Hf) as [Hi Hpend]. split; [lia|].
        rewrite lookup_app_l; [exact Hpend|]. apply lookup_lt_Some in Hpend. exact Hpend.
    + intros i j f g Hf Hg Heq.
      destruct (decide (issued w = i)) as [<-|Hi], (decide (issued w = j)) as [<-|Hj];
        try reflexivity.
      * rewrite lookup_insert_eq in Hf. injection Hf as <-.
        rewrite lookup_insert_ne in Hg by exact Hj.
        destruct (Hp j g Hg) as [_ Hpend]. apply lookup_lt_Some in Hpend.
        simpl in Heq. lia.
      * rewrite lookup_insert_eq in Hg. injection Hg as <-.
        rewrite lookup_insert_ne in Hf by exact Hi.
        destruct (Hp i f Hf) as [_ Hpend]. apply lookup_lt_Some in Hpend.
        simpl in Heq. lia.
      * rewrite lookup_insert_ne in Hf by exact Hi.
        rewrite lookup_insert_ne in Hg by exact Hj. eauto.
  - destruct (inflight w !! i) as [f|] eqn:Hf; [|split; assumption].
    pose proof (callback_frame (flight_promise f) (flight_endpoint f) r (answered i w))
      as (_ & Hin & Hiss & Htim & _).
    split.
    + rewrite Htim. exact Ht.
    + intros k g Hg. rewrite Hin in Hg. simpl in Hg.
      apply lookup_delete_Some in Hg as [Hne Hg].
      destruct (Hp k g Hg) as [Hk Hpend]. rewrite Hiss. split; [exact Hk|].
      rewrite callback_promises_ne; [exact Hpend|].
      intros Heq. apply Hne. exact (Hd i k f g Hf Hg Heq).
    + intros k l g g' Hg Hg'. rewrite Hin in Hg, Hg'. simpl in Hg, Hg'.
      apply lookup_delete_Some in Hg as [_ Hg].
      apply lookup_delete_Some in Hg' as [_ Hg']. eauto.
  - rewrite Ht, lookup_empty. split; assumption.
Qed.

Lemma run_consistent (events : list Event) (w : World) :
  consistent w -> consistent (run events w).
Proof.
  revert w. induction events as [|e events IH]; intros w Hw; simpl.
  - exact Hw.
  - apply IH, step_consistent, Hw.
Qed.

Lemma reachable_consistent (events : list Event) (c : ConnectionObject) :
  consistent (run events (boot c)).
Proof. apply run_consistent, boot_consistent. Qed.

(** ** What the caller of a method observes *)

Lemma outcome_lookup (w : World) (p : nat) (s : PromiseState) :
  promises w !! p = Some s -> (forall q, s <> Adopted q) -> outcome w p = s.
Proof.
  intros Hp Hs. unfold outcome.
  destruct (length (promises w)); simpl; rewrite Hp;
    destruct s; try reflexivity; exfalso; eapply Hs; reflexivity.
Qed.

Lemma step_respond (w : World) (i : nat) (f : InFlight) (r : TransportResult) :
  inflight w !! i = Some f ->
  step (Respond i r) w = callback (flight_promise f) (flight_endpoint f) r (answered i w).
Proof. intros Hf. unfold step. rewrite Hf. reflexivity. Qed.

(** In a reachable world, an answer whose status is not 200 rejects the
    promise of the request with the raw body, and nothing else happens. *)
Lemma respond_not_200 (w : World) (i : nat) (f : InFlight) (res : Response)
    (body : string) :
  consistent w -> inflight w !! i = Some f -> statusCode res <> 200 ->
  outcome (step (Respond i (Answered res body)) w) (flight_promise f)
    = Rejected (ReasonBody body) /\
  issued (step (Respond i (Answered res body)) w) = issued w /\
  timers (step (Respond i (Answered res body)) w) = ∅ /\
  inflight (step (Respond i (Answered res body)) w) = base.delete i (inflight w) /\
  uncaught (step (Respond i (Answered res body)) w) = uncaught w.
Proof.
  intros [Ht Hp _] Hf Hs. rewrite (step_respond w i f _ Hf).
  rewrite callback_not_200 by exact Hs. unfold reject.
  destruct (Hp i f Hf) as [_ Hpend].
  pose proof (settle_frame (flight_promise f) (Rejected (ReasonBody body)) (answered i w))
    as (_ & Hin & Hiss & Htim & _ & Hunc).
  rewrite Hin, Hiss, Htim, Hunc. simpl. repeat split; try assumption.
  apply outcome_lookup; [|discriminate].
  apply settle_lookup. exact Hpend.
Qed.

Lemma step_connection (e : Event) (w : World) : connection (step e w) = connection w.
Proof.
  destruct e as [m endpoint data|i r|j]; simpl.
  - rewrite invoke_send, send_world. reflexivity.
  - destruct (inflight w !! i) as [f|]; [|reflexivity].
    pose proof (callback_frame (flight_promise f) (flight_endpoint f) r (answered i w))
      as (Hc & _). exact Hc.
  - destruct (timers w !! j) as [t|]; [|reflexivity].
    unfold retry_closure, get. rewrite send_world. unfold fulfill_with_promise.
    match goal with
    | |- connection (settle ?p ?s ?w0) = _ =>
        pose proof (settle_frame p s w0) as (Hc & _); exact Hc
    end.
Qed.

(** The closure of the timer re-issues a GET with no body, whichever
    method set the timer. *)
Lemma retry_closure_issues_get (t : Timer) (w : World) :
  inflight (retry_closure t w) !! issued w
  = Some {| flight_options :=
              getRequestOptions (connection w) GET (timer_endpoint t) None;
            flight_promise := length (promises w);
            flight_endpoint := timer_endpoint t |}.
Proof.
  unfold retry_closure, get. rewrite send_world. unfold fulfill_with_promise.
  match goal with
  | |- inflight (settle ?p ?s ?w0) !! _ = _ =>
      pose proof (settle_frame p s w0) as (_ & Hin & _); rewrite Hin
  end.
  simpl. apply lookup_insert_eq.
Qed.

Lemma step_abandoned (e : Event) (w : World) (p : nat) :
  consistent w -> abandoned w p -> abandoned (step e w) p.
Proof.
  intros [Ht Hp Hd] [Hpend Hfree]. destruct e as [m endpoint data|i r|j]; simpl.
  - rewrite invoke_send, send_world. simpl. split; simpl.
    + rewrite lookup_app_l; [exact Hpend|]. apply lookup_lt_Some in Hpend. exact Hpend.
    + intros i f Hf. destruct (decide (issued w = i)) as [<-|Hne].
      * rewrite lookup_insert_eq in Hf. injection Hf as <-. simpl.
        apply lookup_lt_Some in Hpend. lia.
      * rewrite lookup_insert_ne in Hf by exact Hne. eauto.
  - destruct (inflight w !! i) as [f|] eqn:Hf; [|split; assumption].
    pose proof (callback_frame (flight_promise f) (flight_endpoint f) r (answered i w))
      as (_ & Hin & _).
    split.
    + rewrite callback_promises_ne; [exact Hpend|]. exact (Hfree i f Hf).
    + intros k g Hg. rewrite Hin in Hg. simpl in Hg.
      apply lookup_delete_Some in Hg as [_ Hg]. eauto.
  - rewrite Ht, lookup_empty. split; assumption.
Qed.

Lemma run_abandoned (events : list Event) (w : World) (p : nat) :
  consistent w -> abandoned w p -> outcome (run events w) p = Pending.
Proof.
  revert w. induction events as [|e events IH]; intros w Hw Hab; simpl.
  - apply outcome_lookup; [apply Hab | discriminate].
  - apply IH; [apply step_consistent, Hw | apply step_abandoned; assumption].
Qed.

(** A call is never held back: each one adds a request in flight. *)
Lemma call_in_flight (method : Method) (endpoint : string) (data : option Value)
    (w : World) :
  consistent w ->
  size (inflight (step (Call method endpoint data) w)) = S (size (inflight w)).
Proof.
  intros [_ Hp _]. simpl. rewrite invoke_send, send_world. simpl.
  apply map_size_insert_None.
  destruct (inflight w !! issued w) as [f|] eqn:Hf; [|reflexivity].
  destruct (Hp _ _ Hf) as [Hlt _]. lia.
Qed.

(** ** The claims about the four methods *)

Lemma append_assoc (a b c : string) : (a +:+ b) +:+ c = a +:+ (b +:+ c).
Proof.
  induction a as [|x a IH]; [reflexivity|].
  change (String x ((a +:+ b) +:+ c) = String x (a +:+ (b +:+ c))).
  rewrite IH. reflexivity.
Qed.

(** C7: for a path that is not empty and does not begin with a slash,
    the URL of the request is the URL built for the path with a slash put
    in front, whatever the method and the data: [host], one slash, the
    path. *)
Theorem getRequestOptions_url_leading_slash (this : ConnectionObject)
    (m : Method) (p : string) (d d' : option Value) :
  p <> EmptyString -> String.prefix "/" p = false ->
  url (getRequestOptions this m p d) = url (getRequestOptions this m ("/" +:+ p) d') /\
  url (getRequestOptions this m p d) = (host this +:+ "/") +:+ p.
Proof.
  intros Hne Hp. destruct p as [|a p]; [contradiction|].
  assert (Ha : Ascii.eqb a "/" = false).
  { simpl in Hp. destruct (ascii_dec "/" a) as [<-|Hd].
    - destruct p; discriminate Hp.
    - apply Ascii.eqb_neq. congruence. }
  unfold getRequestOptions. simpl.
  assert (Hsub : substring 0 0 p = EmptyString) by (destruct p; reflexivity).
  rewrite Hsub. simpl. rewrite Ha. simpl. split; [|reflexivity].
  apply append_assoc.
Qed.

(** C9: whatever the sequence of calls, answers and timers, the
    connection object is the one the world started with: its [host] and
    its [config] are not assigned by any method. *)
Theorem methods_leave_connection_unchanged (events : list Event) (w : World) :
  connection (run events w) = connection w /\
  host (connection (run events w)) = host (connection w) /\
  config (connection (run events w)) = config (connection w).
Proof.
  assert (Hc : connection (run events w) = connection w).
  { revert w. induction events as [|e events IH]; intros w; simpl.
    - reflexivity.
    - rewrite IH. apply step_connection. }
  rewrite Hc. repeat split.
Qed.

(** C3, amended: when the transport answers a request in flight with a
    status other than 200 and other than 429 the promise of the call is
    rejected with the raw response body (the status code is not part of
    the rejection), no timer is set and no request is issued. *)
Theorem error_status_rejects_with_body (events : list Event) (c : ConnectionObject)
    (i : nat) (f : InFlight) (res : Response) (body : string) :
  inflight (run events (boot c)) !! i = Some f ->
  statusCode res <> 200 -> statusCode res <> 429 ->
  outcome (step (Respond i (Answered res body)) (run events (boot c))) (flight_promise f)
    = Rejected (ReasonBody body) /\
  issued (step (Respond i (Answered res body)) (run events (boot c)))
    = issued (run events (boot c)) /\
  timers (step (Respond i (Answered res body)) (run events (boot c))) = ∅.
Proof.
  intros Hf Hs _.
  destruct (respond_not_200 _ i f res body (reachable_consistent events c) Hf Hs)
    as (Ho & Hi & Ht & _).
  auto.
Qed.

(** C4, amended: when the transport answers a request in flight with
    status 200 and the body is JSON, the promise of the call is fulfilled
    with the parsed value; when the body is not JSON, the SyntaxError
    leaves the callback uncaught and the promise stays pending whatever
    happens afterwards. *)
Theorem ok_status_parses_body (events : list Event) (c : ConnectionObject)
    (i : nat) (f : InFlight) (res : Response) (body : string) :
  inflight (run events (boot c)) !! i = Some f ->
  statusCode res = 200 ->
  match JSON_parse body with
  | Some v =>
      outcome (step (Respond i (Answered res body)) (run events (boot c)))
        (flight_promise f) = Fulfilled v /\
      uncaught (step (Respond i (Answered res body)) (run events (boot c)))
        = uncaught (run events (boot c))
  | None =>
      uncaught (step (Respond i (Answered res body)) (run events (boot c)))
        = SyntaxError body :: uncaught (run events (boot c)) /\
      forall later,
        outcome (run later (step (Respond i (Answered res body)) (run events (boot c))))
          (flight_promise f) = Pending
  end.
Proof.
  intros Hf Hs.
  pose proof (reachable_consistent events c) as Hw.
  set (w := run events (boot c)) in *.
  assert (Hw' : consistent (step (Respond i (Answered res body)) w))
    by apply step_consistent, Hw.
  destruct Hw as [Ht Hp Hd]. destruct (Hp i f Hf) as [_ Hpend].
  rewrite (step_respond w i f _ Hf) in *.
  rewrite callback_200 in * by exact Hs.
  destruct (JSON_parse body) as [v|].
  - unfold fulfill.
    pose proof (settle_frame (flight_promise f) (Fulfilled v) (answered i w))
      as (_ & _ & _ & _ & _ & Hunc).
    split; [|exact Hunc].
    apply outcome_lookup; [|discriminate]. apply settle_lookup. exact Hpend.
  - split; [reflexivity|]. intros later.
    apply run_abandoned; [exact Hw'|].
    split; [exact Hpend|].
    intros k g Hg. simpl in Hg. apply lookup_delete_Some in Hg as [Hne Hg].
    intros Heq. apply Hne. exact (Hd i k f g Hf Hg (eq_sym Heq)).
Qed.

(** C1 is not what the code does: an answer with status 429 is caught by
    the test for a status other than 200, so the promise of the call is
    rejected with the body, no timer is set and nothing is issued again. *)
Theorem rate_limited_answer_rejects (events : list Event) (c : ConnectionObject)
    (i : nat) (f : InFlight) (res : Response) (body : string) :
  inflight (run events (boot c)) !! i = Some f ->
  statusCode res = 429 ->
  outcome (step (Respond i (Answered res body)) (run events (boot c))) (flight_promise f)
    = Rejected (ReasonBody body) /\
  issued (step (Respond i (Answered res body)) (run events (boot c)))
    = issued (run events (boot c)) /\
  timers (step (Respond i (Answered res body)) (run events (boot c))) = ∅ /\
  forall later,
    timers (run later (step (Respond i (Answered res body)) (run events (boot c)))) = ∅.
Proof.
  intros Hf Hs.
  assert (Hne : statusCode res <> 200) by (rewrite Hs; discriminate).
  destruct (respond_not_200 _ i f res body (reachable_consistent events c) Hf Hne)
    as (Ho & Hi & Ht & _).
  repeat split; try assumption.
  intros later. apply no_timers, run_consistent, step_consistent, reachable_consistent.
Qed.

Lemma step_armed (e : Event) (w : World) : consistent w -> armed (step e w) = armed w.
Proof.
  intros Hw. destruct e as [m endpoint data|i r|j].
  - simpl. rewrite invoke_send, send_world. reflexivity.
  - unfold step. destruct (inflight w !! i) as [f|]; [|reflexivity].
    pose proof (callback_frame (flight_promise f) (flight_endpoint f) r (answered i w))
      as (_ & _ & _ & _ & Harm). exact Harm.
  - unfold step. rewrite (no_timers w Hw), lookup_empty. reflexivity.
Qed.

Lemma step_issued (e : Event) (w : World) :
  consistent w -> issued (step e w) = (issued w + count_calls [e])%nat.
Proof.
  intros Hw. destruct e as [m endpoint data|i r|j].
  - simpl. rewrite invoke_send, send_world. simpl. lia.
  - unfold step. simpl count_calls. destruct (inflight w !! i) as [f|]; [|lia].
    pose proof (callback_frame (flight_promise f) (flight_endpoint f) r (answered i w))
      as (_ & _ & Hiss & _). rewrite Hiss. simpl. lia.
  - unfold step. rewrite (no_timers w Hw), lookup_empty. simpl. lia.
Qed.

Lemma run_armed_issued (events : list Event) (w : World) :
  consistent w ->
  armed (run events w) = armed w /\
  issued (run events w) = (issued w + count_calls events)%nat.
Proof.
  revert w. induction events as [|e events IH]; intros w Hw.
  - simpl. lia.
  - change (run (e :: events) w) with (run events (step e w)).
    destruct (IH (step e w) (step_consistent e w Hw)) as [Harm Hiss].
    rewrite Harm, Hiss, step_armed, step_issued by exact Hw.
    split; [reflexivity|]. destruct e; simpl; lia.
Qed.

(** C2 is not what the code does: an answer with status 429 is rejected
    by the test for a status other than 200 before the delay is computed,
    so whatever the response headers hold and whatever happens later, no
    timer is ever set, with the delay of the claim or any other, and the
    only requests issued afterwards are those of new calls. *)
Theorem rate_limited_answer_arms_no_timer (events later : list Event)
    (c : ConnectionObject) (i : nat) (f : InFlight) (res : Response) (body : string) :
  inflight (run events (boot c)) !! i = Some f ->
  statusCode res = 429 ->
  armed (run later (step (Respond i (Answered res body)) (run events (boot c)))) = 0%nat /\
  timers (run later (step (Respond i (Answered res body)) (run events (boot c)))) = ∅ /\
  issued (run later (step (Respond i (Answered res body)) (run events (boot c))))
    = (issued (run events (boot c)) + count_calls later)%nat.
Proof.
  intros Hf Hs.
  pose proof (reachable_consistent events c) as Hw.
  assert (Hw' : consistent (step (Respond i (Answered res body)) (run events (boot c))))
    by apply step_consistent, Hw.
  destruct (run_armed_issued later _ Hw') as [Harm Hiss].
  destruct (run_armed_issued events _ (boot_consistent c)) as [Harm0 _].
  rewrite Harm, Hiss, step_armed, step_issued, Harm0 by exact Hw.
  repeat split.
  - apply no_timers, run_consistent, Hw'.
  - simpl. lia.
Qed.

(** ** Further properties of the methods *)

(** A failure of the transport rejects the promise of the call with the
    transport's error object as it is; no timer is set and nothing is
    issued again. *)
Theorem transport_error_rejects_unmodified (events : list Event) (c : ConnectionObject)
    (i : nat) (f : InFlight) (err : Exception) :
  inflight (run events (boot c)) !! i = Some f ->
  outcome (step (Respond i (Failed err)) (run events (boot c))) (flight_promise f)
    = Rejected (ReasonError err) /\
  issued (step (Respond i (Failed err)) (run events (boot c)))
    = issued (run events (boot c)) /\
  timers (step (Respond i (Failed err)) (run events (boot c))) = ∅.
Proof.
  intros Hf. pose proof (reachable_consistent events c) as [Ht Hp _].
  destruct (Hp i f Hf) as [_ Hpend].
  rewrite (step_respond _ i f _ Hf). simpl callback. unfold reject.
  pose proof (settle_frame (flight_promise f) (Rejected (ReasonError err))
                (answered i (run events (boot c)))) as (_ & _ & Hiss & Htim & _).
  rewrite Hiss, Htim. repeat split; try assumption.
  apply outcome_lookup; [|discriminate]. apply settle_lookup. exact Hpend.
Qed.

(** No run of the event loop ever sets a timer: the branch that calls
    [setTimeout] is behind the test that rejects every status other than
    200. *)
Theorem no_timer_is_ever_set (events : list Event) (c : ConnectionObject) :
  timers (run events (boot c)) = ∅.
Proof. apply no_timers, reachable_consistent. Qed.

(** Calls are handed to the transport at once: after any number of calls
    in a row, as many requests are in flight. *)
Theorem calls_all_dispatched (calls : list (Method * string * option Value))
    (c : ConnectionObject) :
  size (inflight (run (map (fun k => Call k.1.1 k.1.2 k.2) calls) (boot c)))
  = length calls.
Proof.
  assert (Hgen : forall w, consistent w ->
            size (inflight (run (map (fun k => Call k.1.1 k.1.2 k.2) calls) w))
            = (size (inflight w) + length calls)%nat).
  { induction calls as [|k calls IH]; intros w Hw.
    - simpl. lia.
    - change (size (inflight (run (map (fun k => Call k.1.1 k.1.2 k.2) calls)
                                  (step (Call k.1.1 k.1.2 k.2) w)))
              = (size (inflight w) + S (length calls))%nat).
      rewrite IH by apply step_consistent, Hw.
      rewrite call_in_flight by exact Hw. lia. }
  rewrite Hgen by apply boot_consistent. reflexivity.
Qed.

(** Were a timer to fire, its closure would issue a GET without body for
    the endpoint, whichever method had set it. *)
Theorem retry_would_issue_get (w : World) (j : nat) (t : Timer) :
  timers w !! j = Some t ->
  inflight (step (Elapse j) w) !! issued w
  = Some {| flight_options :=
              getRequestOptions (connection w) GET (timer_endpoint t) None;
            flight_promise := length (promises w);
            flight_endpoint := timer_endpoint t |}.
Proof.
  intros Hj. unfold step. rewrite Hj.
  exact (retry_closure_issues_get t (fired j w)).
Qed.

(** Every call puts in flight a request with the method called, the four
    headers filled from the stored configuration, and no body for [get]
    and [delete]. *)
Theorem call_request_options (m : Method) (endpoint : string)
    (data : option Value) (w : World) :
  exists f, inflight (step (Call m endpoint data) w) !! issued w = Some f /\
    flight_promise f = length (promises w) /\
    method (flight_options f) = m /\
    headers (flight_options f)
      = [ ("Accept", Some "application/json");
          ("Content-Type", Some "application/json");
          ("X-Auth-Client", cid (config (connection w)));
          ("X-Auth-Token", token (config (connection w))) ] /\
    match m with
    | GET | DELETE => body (flight_options f) = None
    | PUT | POST => body (flight_options f)
                    = match data with
                      | Some d => if truthy d then Some (JSON_stringify d) else None
                      | None => None
                      end
    end.
Proof.
  simpl. rewrite invoke_send, send_world. simpl.
  eexists. split; [apply lookup_insert_eq|].
  destruct m; repeat split.
Qed.

(** ** Calls that run side by side *)

Lemma verdict_not_adopted (r : TransportResult) (q : nat) : verdict r <> Adopted q.
Proof.
  destruct r as [err|res body]; simpl; [discriminate|].
  destruct (negb (statusCode res =? 200)); [discriminate|].
  destruct (JSON_parse body); discriminate.
Qed.

(** On a pending promise the callback writes the verdict and passes on
    what it throws; the rest of the world is as it was. *)
Lemma callback_pending (p : nat) (endpoint : string) (r : TransportResult) (w : World) :
  promises w !! p = Some Pending ->
  callback p endpoint r w
  = {| connection := connection w;
       promises := <[p := verdict r]> (promises w);
       inflight := inflight w; issued := issued w;
       timers := timers w; armed := armed w;
       uncaught := thrown r ++ uncaught w |}.
Proof.
  intros Hp. destruct r as [err|res body].
  - simpl. unfold reject, settle. rewrite Hp. reflexivity.
  - destruct (Z.eq_dec (statusCode res) 200) as [Hs|Hs].
    + rewrite callback_200 by exact Hs. unfold verdict, thrown.
      rewrite Hs. simpl negb. cbv iota.
      destruct (JSON_parse body) as [v|].
      * unfold fulfill, settle. rewrite Hp. reflexivity.
      * unfold throw. rewrite (list_insert_id _ _ _ Hp). reflexivity.
    + rewrite callback_not_200 by exact Hs. unfold verdict, thrown.
      destruct (Z.eqb_spec (statusCode res) 200) as [|_]; [contradiction|].
      unfold reject, settle. rewrite Hp. reflexivity.
Qed.

Lemma step_respond_world (w : World) (i : nat) (f : InFlight) (r : TransportResult) :
  consistent w -> inflight w !! i = Some f ->
  step (Respond i r) w
  = {| connection := connection w;
       promises := <[flight_promise f := verdict r]> (promises w);
       inflight := base.delete i (inflight w); issued := issued w;
       timers := timers w; armed := armed w;
       uncaught := thrown r ++ uncaught w |}.
Proof.
  intros [_ Hp _] Hf. destruct (Hp i f Hf) as [_ Hpend].
  rewrite (step_respond w i f r Hf).
  rewrite callback_pending by exact Hpend. reflexivity.
Qed.

Lemma step_keeps_flight (e : Event) (w : World) (i : nat) (f : InFlight) :
  consistent w -> inflight w !! i = Some f -> answers i e = false ->
  inflight (step e w) !! i = Some f.
Proof.
  intros Hw Hf He. destruct e as [m endpoint data|j r|j].
  - simpl. rewrite invoke_send, send_world. simpl.
    destruct Hw as [_ Hp _]. destruct (Hp i f Hf) as [Hlt _].
    rewrite lookup_insert_ne by lia. exact Hf.
  - simpl in He. apply Nat.eqb_neq in He.
    destruct (inflight w !! j) as [g|] eqn:Hg.
    + rewrite (step_respond_world w j g r Hw Hg). simpl.
      rewrite lookup_delete_ne by exact He. exact Hf.
    + unfold step. rewrite Hg. exact Hf.
  - unfold step. rewrite (no_timers w Hw), lookup_empty. exact Hf.
Qed.

Lemma run_keeps_flight (mid : list Event) (w : World) (i : nat) (f : InFlight) :
  consistent w -> inflight w !! i = Some f ->
  forallb (fun e => negb (answers i e)) mid = true ->
  inflight (run mid w) !! i = Some f.
Proof.
  revert w. induction mid as [|e mid IH]; intros w Hw Hf Hmid; simpl.
  - exact Hf.
  - simpl in Hmid. apply andb_prop in Hmid as [He Hmid].
    apply negb_true_iff in He.
    apply IH; [apply step_consistent, Hw | | exact Hmid].
    apply step_keeps_flight; assumption.
Qed.

(** Until the transport answers a request, the request stays in flight
    and the promise of its call stays pending, whatever other calls are
    made and whatever other requests are answered meanwhile. *)
Theorem pending_until_answered (events mid : list Event) (c : ConnectionObject)
    (i : nat) (f : InFlight) :
  inflight (run events (boot c)) !! i = Some f ->
  forallb (fun e => negb (answers i e)) mid = true ->
  inflight (run mid (run events (boot c))) !! i = Some f /\
  outcome (run mid (run events (boot c))) (flight_promise f) = Pending.
Proof.
  intros Hf Hmid.
  pose proof (reachable_consistent events c) as Hw.
  pose proof (run_keeps_flight mid _ i f Hw Hf Hmid) as Hf'.
  split; [exact Hf'|].
  pose proof (run_consistent mid _ Hw) as [_ Hp _].
  destruct (Hp i f Hf') as [_ Hpend].
  apply outcome_lookup; [exact Hpend | discriminate].
Qed.

(** What a call ends with depends on the answer to its own request only:
    calls made and answers given to other requests between the call and
    its answer do not change it. *)
Theorem call_outcome_ignores_interleaving (events mid : list Event)
    (c : ConnectionObject) (m : Method) (endpoint : string) (data : option Value)
    (r : TransportResult) :
  forallb (fun e => negb (answers (issued (run events (boot c))) e)) mid = true ->
  outcome (step (Respond (issued (run events (boot c))) r)
             (run mid (step (Call m endpoint data) (run events (boot c)))))
          (length (promises (run events (boot c))))
  = outcome (step (Respond (issued (run events (boot c))) r)
               (step (Call m endpoint data) (run events (boot c))))
            (length (promises (run events (boot c)))).
Proof.
  intros Hmid.
  pose proof (reachable_consistent events c) as Hw.
  set (w := run events (boot c)) in *.
  assert (Hw1 : consistent (step (Call m endpoint data) w)) by apply step_consistent, Hw.
  assert (Hf : exists f, inflight (step (Call m endpoint data) w) !! issued w = Some f
                         /\ flight_promise f = length (promises w)).
  { simpl. rewrite invoke_send, send_world. simpl.
    eexists. split; [apply lookup_insert_eq | reflexivity]. }
  destruct Hf as (f & Hf & Hfp).
  assert (Hsettled : forall w', consistent w' -> inflight w' !! issued w = Some f ->
            outcome (step (Respond (issued w) r) w') (length (promises w)) = verdict r).
  { intros w' Hw' Hf'. rewrite (step_respond_world w' _ f r Hw' Hf').
    apply outcome_lookup; [|apply verdict_not_adopted]. simpl. rewrite Hfp.
    apply list_lookup_insert_eq.
    destruct Hw' as [_ Hp _]. destruct (Hp _ _ Hf') as [_ Hpend].
    rewrite Hfp in Hpend. apply lookup_lt_Some in Hpend. exact Hpend. }
  rewrite (Hsettled _ Hw1 Hf).
  apply Hsettled; [apply run_consistent, Hw1|].
  apply run_keeps_flight; assumption.
Qed.

(** Answers to two different requests in flight can come in either
    order: the promises, the requests left in flight and the counters end
    the same, and the same exceptions have escaped. *)
Theorem answers_commute (events : list Event) (c : ConnectionObject)
    (i j : nat) (f g : InFlight) (r r' : TransportResult) :
  i <> j ->
  inflight (run events (boot c)) !! i = Some f ->
  inflight (run events (boot c)) !! j = Some g ->
  promises (step (Respond i r) (step (Respond j r') (run events (boot c))))
    = promises (step (Respond j r') (step (Respond i r) (run events (boot c)))) /\
  inflight (step (Respond i r) (step (Respond j r') (run events (boot c))))
    = inflight (step (Respond j r') (step (Respond i r) (run events (boot c)))) /\
  issued (step (Respond i r) (step (Respond j r') (run events (boot c))))
    = issued (step (Respond j r') (step (Respond i r) (run events (boot c)))) /\
  timers (step (Respond i r) (step (Respond j r') (run events (boot c))))
    = timers (step (Respond j r') (step (Respond i r) (run events (boot c)))) /\
  uncaught (step (Respond i r) (step (Respond j r') (run events (boot c))))
    ≡ₚ uncaught (step (Respond j r') (step (Respond i r) (run events (boot c)))).
Proof.
  intros Hij Hf Hg.
  pose proof (reachable_consistent events c) as Hw.
  set (w := run events (boot c)) in *.
  assert (Hpq : flight_promise f <> flight_promise g).
  { intros Heq. apply Hij. exact (flights_distinct w Hw i j f g Hf Hg Heq). }
  assert (Hwi : consistent (step (Respond i r) w)) by apply step_consistent, Hw.
  assert (Hwj : consistent (step (Respond j r') w)) by apply step_consistent, Hw.
  assert (Hfj : inflight (step (Respond j r') w) !! i = Some f).
  { apply step_keeps_flight; [exact Hw | exact Hf |].
    simpl. apply Nat.eqb_neq. congruence. }
  assert (Hgi : inflight (step (Respond i r) w) !! j = Some g).
  { apply step_keeps_flight; [exact Hw | exact Hg |].
    simpl. apply Nat.eqb_neq. congruence. }
  rewrite (step_respond_world _ i f r Hwj Hfj).
  rewrite (step_respond_world _ j g r' Hwi Hgi).
  rewrite (step_respond_world w j g r' Hw Hg).
  rewrite (step_respond_world w i f r Hw Hf).
  simpl. repeat split.
  - apply list_insert_insert_ne. congruence.
  - apply delete_delete.
  - rewrite !app_assoc. apply Permutation_app_tail, Permutation_app_comm.
Qed.

(** ** What the event loop keeps *)

Lemma settle_settled (p q : nat) (s s' : PromiseState) (w : World) :
  promises w !! p = Some s -> s <> Pending ->
  promises (settle q s' w) !! p = Some s.
Proof.
  intros Hp Hs. destruct (decide (q = p)) as [->|Hne].
  - unfold settle. rewrite Hp. destruct s; try exact Hp. contradiction.
  - rewrite settle_lookup_ne by exact Hne. exact Hp.
Qed.

Lemma callback_settled (p q : nat) (s : PromiseState) (endpoint : string)
    (r : TransportResult) (w : World) :
  promises w !! p = Some s -> s <> Pending ->
  promises (callback q endpoint r w) !! p = Some s.
Proof.
  intros Hp Hs. destruct r as [err|res body].
  - apply settle_settled; assumption.
  - destruct (Z.eq_dec (statusCode res) 200) as [H200|H200].
    + rewrite callback_200 by exact H200. destruct (JSON_parse body).
      * apply settle_settled; assumption.
      * exact Hp.
    + rewrite callback_not_200 by exact H200. apply settle_settled; assumption.
Qed.

Lemma step_settled (e : Event) (w : World) (p : nat) (s : PromiseState) :
  promises w !! p = Some s -> s <> Pending -> promises (step e w) !! p = Some s.
Proof.
  intros Hp Hs. destruct e as [m endpoint data|i r|j]; simpl.
  - rewrite invoke_send, send_world. simpl.
    rewrite lookup_app_l; [exact Hp|]. apply lookup_lt_Some in Hp. exact Hp.
  - destruct (inflight w !! i) as [f|]; [|exact Hp].
    apply callback_settled; assumption.
  - destruct (timers w !! j) as [t|]; [|exact Hp].
    unfold retry_closure, get. rewrite send_world. unfold fulfill_with_promise.
    apply settle_settled; [|exact Hs]. simpl.
    rewrite lookup_app_l; [exact Hp|]. apply lookup_lt_Some in Hp. exact Hp.
Qed.

(** A promise that has been fulfilled or rejected keeps its value: no
    later call, answer or timer changes what its holder observes. *)
Theorem settled_promise_is_final (events : list Event) (w : World) (p : nat)
    (s : PromiseState) :
  promises w !! p = Some s ->
  ((exists v, s = Fulfilled v) \/ (exists reason, s = Rejected reason)) ->
  outcome (run events w) p = s.
Proof.
  intros Hp Hs.
  assert (Hne : s <> Pending) by (destruct Hs as [[v ->]|[x ->]]; discriminate).
  assert (Hrun : promises (run events w) !! p = Some s).
  { revert w Hp. induction events as [|e events IH]; intros w Hp; simpl.
    - exact Hp.
    - apply IH, step_settled; assumption. }
  apply outcome_lookup; [exact Hrun|].
  destruct Hs as [[v ->]|[x ->]]; discriminate.
Qed.

(** The connector issues one request per call and never one of its own:
    the requests handed to the transport, and the promises made, are as
    many as the calls. *)
Theorem one_request_per_call (events : list Event) (c : ConnectionObject) :
  issued (run events (boot c)) = count_calls events /\
  length (promises (run events (boot c))) = count_calls events.
Proof.
  assert (Hgen : forall w, consistent w ->
            issued (run events w) = (issued w + count_calls events)%nat /\
            length (promises (run events w))
              = (length (promises w) + count_calls events)%nat).
  { induction events as [|e events IH]; intros w Hw.
    - simpl. lia.
    - change (run (e :: events) w) with (run events (step e w)).
      destruct (IH (step e w) (step_consistent e w Hw)) as [Hi Hl].
      rewrite Hi, Hl. destruct e as [m endpoint data|i r|j].
      + simpl. rewrite invoke_send, send_world. simpl.
        rewrite length_app. simpl. lia.
      + destruct (inflight w !! i) as [f|] eqn:Hf.
        * rewrite (step_respond_world w i f r Hw Hf). simpl.
          rewrite length_insert. lia.
        * unfold step. rewrite Hf. simpl. lia.
      + unfold step. rewrite (no_timers w Hw), lookup_empty. simpl. lia. }
  destruct (Hgen (boot c) (boot_consistent c)) as [Hi Hl].
  rewrite Hi, Hl. simpl. lia.
Qed.

(** The only exceptions that escape are the SyntaxErrors of 200 answers
    whose body is not JSON; the unbound identifier [retry] is never
    read. *)
Theorem only_syntax_errors_escape (events : list Event) (c : ConnectionObject) :
  only_parse_failures (uncaught (run events (boot c))).
Proof.
  assert (Hgen : forall w, consistent w -> only_parse_failures (uncaught w) ->
            only_parse_failures (uncaught (run events w))).
  { induction events as [|e events IH]; intros w Hw Hu; [exact Hu|].
    change (run (e :: events) w) with (run events (step e w)).
    apply IH; [apply step_consistent, Hw|].
    destruct e as [m endpoint data|i r|j].
    - simpl. rewrite invoke_send, send_world. exact Hu.
    - destruct (inflight w !! i) as [f|] eqn:Hf.
      + rewrite (step_respond_world w i f r Hw Hf). simpl.
        apply Forall_app. split; [|exact Hu].
        destruct r as [err|res body]; simpl; [constructor|].
        destruct (negb (statusCode res =? 200)); [constructor|].
        destruct (JSON_parse body) eqn:Hparse; [constructor|].
        constructor; [eauto | constructor].
      + unfold step. rewrite Hf. exact Hu.
    - unfold step. rewrite (no_timers w Hw), lookup_empty. exact Hu. }
  apply Hgen; [apply boot_consistent | constructor].
Qed.

(** ** Where requests go *)

Lemma prefix_append (a b : string) : String.prefix a (a +:+ b) = true.
Proof.
  induction a as [|x a IH]; [destruct b; reflexivity|].
  change (String.prefix (String x a) (String x (a +:+ b)) = true).
  simpl. destruct (ascii_dec x x); [exact IH | contradiction].
Qed.

(** The URL of a request is [host], a slash, and the endpoint without
    its leading slash if it has one: an endpoint that begins with a slash
    is appended as it is, any other one (the empty one too) after a
    slash. *)
Theorem getRequestOptions_url_shape (this : ConnectionObject) (m : Method)
    (endpoint : string) (d : option Value) :
  exists rest,
    url (getRequestOptions this m endpoint d) = (host this +:+ "/") +:+ rest /\
    (endpoint = "/" +:+ rest \/
     (endpoint = rest /\ String.prefix "/" endpoint = false)).
Proof.
  destruct endpoint as [|a rest].
  - exists EmptyString. split; [reflexivity | right; split; reflexivity].
  - assert (Hsub : substring 0 0 rest = EmptyString) by (destruct rest; reflexivity).
    destruct (Ascii.eqb a "/") eqn:Ha.
    + apply Ascii.eqb_eq in Ha. subst a. exists rest. split; [|left; reflexivity].
      unfold getRequestOptions. simpl. rewrite Hsub. simpl.
      symmetry. apply append_assoc.
    + exists (String a rest). split.
      * unfold getRequestOptions. simpl. rewrite Hsub. simpl. rewrite Ha. reflexivity.
      * right. split; [reflexivity|]. cbn [String.prefix].
        destruct (ascii_dec "/" a) as [<-|_]; [|reflexivity].
        rewrite Ascii.eqb_refl in Ha. discriminate Ha.
Qed.

Lemma url_below_host (this : ConnectionObject) (m : Method) (endpoint : string)
    (d : option Value) :
  String.prefix (host this +:+ "/") (url (getRequestOptions this m endpoint d)) = true.
Proof.
  unfold getRequestOptions. simpl url.
  destruct (negb (String.eqb (substring 0 1 endpoint) "/")) eqn:Hslash.
  - apply prefix_append.
  - apply negb_false_iff, String.eqb_eq in Hslash.
    destruct endpoint as [|a rest]; [discriminate Hslash|].
    simpl in Hslash. injection Hslash as -> _.
    change (String "/" rest) with ("/" +:+ rest).
    rewrite <- append_assoc. apply prefix_append.
Qed.

Lemma step_addressed (e : Event) (w : World) : addressed w -> addressed (step e w).
Proof.
  intros Ha i f Hf. rewrite step_connection.
  destruct e as [m endpoint data|j r|j]; simpl in Hf.
  - rewrite invoke_send, send_world in Hf. simpl in Hf.
    destruct (decide (issued w = i)) as [<-|Hne].
    + rewrite lookup_insert_eq in Hf. injection Hf as <-. simpl. eauto.
    + rewrite lookup_insert_ne in Hf by exact Hne. eauto.
  - destruct (inflight w !! j) as [g|] eqn:Hg; [|eauto].
    pose proof (callback_frame (flight_promise g) (flight_endpoint g) r (answered j w))
      as (_ & Hin & _).
    rewrite Hin in Hf. simpl in Hf. apply lookup_delete_Some in Hf as [_ Hf]. eauto.
  - destruct (timers w !! j) as [t|] eqn:Ht; [|eauto].
    unfold retry_closure, get in Hf. rewrite send_world in Hf.
    unfold fulfill_with_promise in Hf.
    match type of Hf with
    | inflight (settle ?p ?s ?w0) !! _ = _ =>
        pose proof (settle_frame p s w0) as (_ & Hin & _); rewrite Hin in Hf
    end.
    simpl in Hf. destruct (decide (issued w = i)) as [<-|Hne].
    + rewrite lookup_insert_eq in Hf. injection Hf as <-. simpl. eauto.
    + rewrite lookup_insert_ne in Hf by exact Hne. eauto.
Qed.

Lemma run_addressed (events : list Event) (w : World) :
  addressed w -> addressed (run events w) /\ connection (run events w) = connection w.
Proof.
  revert w. induction events as [|e events IH]; intros w Ha; simpl.
  - split; [exact Ha | reflexivity].
  - destruct (IH (step e w) (step_addressed e w Ha)) as [Ha' Hc].
    split; [exact Ha'|]. rewrite Hc. apply step_connection.
Qed.

(** Every request of a connector built by the constructor goes below
    the store's root [api + '/stores/' + hash + '/v2/'] and carries the
    client id and the token of the configuration, neither of them
    undefined. *)
Theorem requests_target_store_root (cfg : Config) (c : ConnectionObject)
    (events : list Event) (i : nat) (f : InFlight) :
  new_Connection (Some cfg) = Returned c ->
  inflight (run events (boot c)) !! i = Some f ->
  exists a h k t,
    api cfg = Some a /\ hash cfg = Some h /\ cid cfg = Some k /\ token cfg = Some t /\
    String.prefix ((((a +:+ "/stores/") +:+ h) +:+ "/v2") +:+ "/")
                  (url (flight_options f)) = true /\
    headers (flight_options f)
      = [ ("Accept", Some "application/json");
          ("Content-Type", Some "application/json");
          ("X-Auth-Client", Some k);
          ("X-Auth-Token", Some t) ].
Proof.
  intros Hnew Hf.
  assert (Hboot : addressed (boot c)).
  { intros k g Hg. simpl in Hg. rewrite lookup_empty in Hg. discriminate. }
  destruct (run_addressed events (boot c) Hboot) as [Ha Hc].
  destruct (Ha i f Hf) as (m & d & Hopt). rewrite Hc in Hopt. simpl in Hopt.
  unfold new_Connection, initialise in Hnew.
  destruct (hash cfg) as [h|] eqn:Hh; [|discriminate].
  destruct (token cfg) as [t|] eqn:Ht; [|discriminate].
  destruct (cid cfg) as [k|] eqn:Hk; [|discriminate].
  destruct (api cfg) as [a|] eqn:Hapi; [|discriminate].
  injection Hnew as <-. exists a, h, k, t.
  repeat split; try reflexivity.
  - rewrite Hopt.
    apply (url_below_host
             {| host := ((a +:+ "/stores/") +:+ h) +:+ "/v2"; config := cfg |}).
  - rewrite Hopt. simpl. rewrite Hk, Ht. reflexivity.
Qed.

(** Nothing is cached or merged: the same call made twice hands two
    requests with the same options to the transport, each with a promise
    of its own. *)
Theorem repeated_call_is_sent_again (w : World) (m : Method) (endpoint : string)
    (data : option Value) :
  exists f g,
    inflight (run [Call m endpoint data; Call m endpoint data] w) !! issued w = Some f /\
    inflight (run [Call m endpoint data; Call m endpoint data] w) !! S (issued w)
      = Some g /\
    flight_options f = flight_options g /\
    flight_promise f = length (promises w) /\
    flight_promise g = S (length (promises w)).
Proof.
  simpl. rewrite !invoke_send, !send_world. simpl.
  eexists. eexists.
  split; [rewrite lookup_insert_ne by lia; apply lookup_insert_eq|].
  split; [apply lookup_insert_eq|].
  simpl. rewrite length_app. simpl. repeat split. lia.
Qed.

End Properties.

(** ** The claims on concrete runs *)

Section Runs.
Import MiniJSON.

Lemma getRequestOptions_url_leading_slash_witness :
  url (getRequestOptions sample_connection GET "products" None)
  = url (getRequestOptions sample_connection GET "/products" None) /\
  url (getRequestOptions sample_connection GET "products" None)
  = "https://api.bigcommerce.com/stores/abc123/v2/products".
Proof.
  apply (getRequestOptions_url_leading_slash sample_connection GET "products" None None);
    [discriminate | reflexivity].
Defined.

Lemma error_status_rejects_with_body_witness :
  outcome (run [Call PUT "/products/1" (Some price_10);
                Respond 0 (Answered (answer 500 None) "Internal Error")]
               (boot sample_connection)) 0
    = Rejected (ReasonBody "Internal Error") /\
  issued (run [Call PUT "/products/1" (Some price_10);
               Respond 0 (Answered (answer 500 None) "Internal Error")]
              (boot sample_connection)) = 1%nat /\
  timers (run [Call PUT "/products/1" (Some price_10);
               Respond 0 (Answered (answer 500 None) "Internal Error")]
              (boot sample_connection)) = ∅.
Proof.
  apply (error_status_rejects_with_body
           [Call PUT "/products/1" (Some price_10)] sample_connection 0
           {| flight_options :=
                getRequestOptions sample_connection PUT "/products/1" (Some price_10);
              flight_promise := 0; flight_endpoint := "/products/1" |}
           (answer 500 None) "Internal Error");
    [reflexivity | discriminate | discriminate].
Defined.

(** C3 as stated fails: the rejection is the body alone, so answers with
    status 500 and status 404 and the same body reject the caller with
    the same value. *)
Lemma rejection_leaves_out_status :
  outcome (run [Call PUT "/products/1" (Some price_10);
                Respond 0 (Answered (answer 500 None) "Internal Error")]
               (boot sample_connection)) 0
    = Rejected (ReasonBody "Internal Error") /\
  outcome (run [Call PUT "/products/1" (Some price_10);
                Respond 0 (Answered (answer 404 None) "Internal Error")]
               (boot sample_connection)) 0
    = Rejected (ReasonBody "Internal Error").
Proof. split; reflexivity. Qed.

Lemma ok_status_parses_body_witness :
  outcome (run [Call GET "/products/42" None;
                Respond 0 (Answered (answer 200 None)
                                    (json_text "{'id': 42, 'name': 'Widget'}"))]
               (boot sample_connection)) 0
    = Fulfilled widget /\
  uncaught (run [Call GET "/products/42" None;
                 Respond 0 (Answered (answer 200 None)
                                     (json_text "{'id': 42, 'name': 'Widget'}"))]
                (boot sample_connection)) = [].
Proof.
  exact (ok_status_parses_body
           [Call GET "/products/42" None] sample_connection 0
           {| flight_options :=
                getRequestOptions sample_connection GET "/products/42" None;
              flight_promise := 0; flight_endpoint := "/products/42" |}
           (answer 200 None) (json_text "{'id': 42, 'name': 'Widget'}")
           eq_refl eq_refl).
Defined.

(** C4 as stated fails: a 200 answer whose body is not JSON leaves the
    promise of the call pending, neither fulfilled nor rejected, and the
    SyntaxError is uncaught. *)
Lemma malformed_body_is_not_a_rejection :
  outcome (run [Call GET "/products/42" None;
                Respond 0 (Answered (answer 200 None) "<html>Bad Gateway</html>")]
               (boot sample_connection)) 0
    = Pending /\
  uncaught (run [Call GET "/products/42" None;
                 Respond 0 (Answered (answer 200 None) "<html>Bad Gateway</html>")]
                (boot sample_connection))
    = [SyntaxError "<html>Bad Gateway</html>"].
Proof. split; reflexivity. Qed.

Lemma rate_limited_answer_rejects_witness :
  outcome (run [Call POST "/categories" (Some sale);
                Respond 0 (Answered (answer 429 (Some "1")) "Too Many Requests")]
               (boot sample_connection)) 0
    = Rejected (ReasonBody "Too Many Requests") /\
  issued (run [Call POST "/categories" (Some sale);
               Respond 0 (Answered (answer 429 (Some "1")) "Too Many Requests")]
              (boot sample_connection)) = 1%nat /\
  timers (run [Call POST "/categories" (Some sale);
               Respond 0 (Answered (answer 429 (Some "1")) "Too Many Requests")]
              (boot sample_connection)) = ∅ /\
  forall later,
    timers (run later
              (run [Call POST "/categories" (Some sale);
                    Respond 0 (Answered (answer 429 (Some "1")) "Too Many Requests")]
                   (boot sample_connection))) = ∅.
Proof.
  apply (rate_limited_answer_rejects
           [Call POST "/categories" (Some sale)]
           sample_connection 0
           {| flight_options :=
                getRequestOptions sample_connection POST "/categories" (Some sale);
              flight_promise := 0; flight_endpoint := "/categories" |}
           (answer 429 (Some "1")) "Too Many Requests");
    reflexivity.
Defined.

Lemma rate_limited_answer_arms_no_timer_witness :
  armed (run [Elapse 0; Call GET "/categories" None]
             (step (Respond 0 (Answered (answer 429 (Some "1")) "Too Many Requests"))
                (run [Call POST "/categories" (Some sale)] (boot sample_connection))))
    = 0%nat /\
  timers (run [Elapse 0; Call GET "/categories" None]
              (step (Respond 0 (Answered (answer 429 (Some "1")) "Too Many Requests"))
                 (run [Call POST "/categories" (Some sale)] (boot sample_connection))))
    = ∅ /\
  issued (run [Elapse 0; Call GET "/categories" None]
              (step (Respond 0 (Answered (answer 429 (Some "1")) "Too Many Requests"))
                 (run [Call POST "/categories" (Some sale)] (boot sample_connection))))
    = 2%nat.
Proof.
  exact (rate_limited_answer_arms_no_timer
           [Call POST "/categories" (Some sale)]
           [Elapse 0; Call GET "/categories" None]
           sample_connection 0
           {| flight_options :=
                getRequestOptions sample_connection POST "/categories" (Some sale);
              flight_promise := 0; flight_endpoint := "/categories" |}
           (answer 429 (Some "1")) "Too Many Requests" eq_refl eq_refl).
Defined.

(** C8 is not what the code does: [maxConcurrentRequests] is 2 in the
    configuration and five calls of [get] put five requests in flight. *)
Theorem five_gets_all_in_flight :
  new_Connection (Some sample_config) = Returned sample_connection /\
  maxConcurrentRequests (config sample_connection) = Some 2%nat /\
  size (inflight (run (replicate 5 (Call GET "/products" None))
                      (boot sample_connection))) = 5%nat.
Proof. repeat split. Qed.

Lemma transport_error_rejects_unmodified_witness :
  outcome (run [Call DELETE "/products/1" None;
                Respond 0 (Failed (Error "connect ECONNREFUSED"))]
               (boot sample_connection)) 0
    = Rejected (ReasonError (Error "connect ECONNREFUSED")) /\
  issued (run [Call DELETE "/products/1" None;
               Respond 0 (Failed (Error "connect ECONNREFUSED"))]
              (boot sample_connection)) = 1%nat /\
  timers (run [Call DELETE "/products/1" None;
               Respond 0 (Failed (Error "connect ECONNREFUSED"))]
              (boot sample_connection)) = ∅.
Proof.
  apply (transport_error_rejects_unmodified
           [Call DELETE "/products/1" None] sample_connection 0
           {| flight_options :=
                getRequestOptions sample_connection DELETE "/products/1" None;
              flight_promise := 0; flight_endpoint := "/products/1" |}
           (Error "connect ECONNREFUSED")).
  reflexivity.
Defined.

Lemma retry_would_issue_get_witness :
  inflight (step (Elapse 0) (setTimeout put_timer (boot sample_connection))) !! 0%nat
  = Some {| flight_options :=
              getRequestOptions sample_connection GET "/products/1" None;
            flight_promise := 0; flight_endpoint := "/products/1" |}.
Proof.
  apply (retry_would_issue_get (setTimeout put_timer (boot sample_connection)) 0 put_timer).
  reflexivity.
Defined.

Lemma pending_until_answered_witness :
  inflight (run [Call PUT "/products/1" (Some price_10);
                 Respond 1 (Answered (answer 500 None) "Internal Error")]
                (run [Call GET "/products" None] (boot sample_connection))) !! 0%nat
    = Some {| flight_options := getRequestOptions sample_connection GET "/products" None;
              flight_promise := 0; flight_endpoint := "/products" |} /\
  outcome (run [Call PUT "/products/1" (Some price_10);
                Respond 1 (Answered (answer 500 None) "Internal Error")]
               (run [Call GET "/products" None] (boot sample_connection))) 0
    = Pending.
Proof.
  apply (pending_until_answered
           [Call GET "/products" None]
           [Call PUT "/products/1" (Some price_10);
            Respond 1 (Answered (answer 500 None) "Internal Error")]
           sample_connection 0
           {| flight_options := getRequestOptions sample_connection GET "/products" None;
              flight_promise := 0; flight_endpoint := "/products" |});
    reflexivity.
Defined.

Lemma call_outcome_ignores_interleaving_witness :
  outcome (step (Respond 0 (Answered (answer 200 None) (json_text "{'ok': true}")))
             (run [Call GET "/products" None;
                   Respond 1 (Answered (answer 404 None) "Not Found")]
                  (step (Call POST "/categories" (Some sale)) (boot sample_connection))))
          0
  = outcome (step (Respond 0 (Answered (answer 200 None) (json_text "{'ok': true}")))
               (step (Call POST "/categories" (Some sale)) (boot sample_connection)))
            0.
Proof.
  apply (call_outcome_ignores_interleaving
           []
           [Call GET "/products" None;
            Respond 1 (Answered (answer 404 None) "Not Found")]
           sample_connection POST "/categories" (Some sale)
           (Answered (answer 200 None) (json_text "{'ok': true}"))).
  reflexivity.
Defined.

Lemma answers_commute_witness :
  promises (step (Respond 0 (Answered (answer 200 None) "<html>"))
              (step (Respond 1 (Answered (answer 200 None) "oops"))
                 (run [Call GET "/products" None; Call GET "/orders" None]
                      (boot sample_connection))))
    = promises (step (Respond 1 (Answered (answer 200 None) "oops"))
                  (step (Respond 0 (Answered (answer 200 None) "<html>"))
                     (run [Call GET "/products" None; Call GET "/orders" None]
                          (boot sample_connection)))) /\
  uncaught (step (Respond 0 (Answered (answer 200 None) "<html>"))
              (step (Respond 1 (Answered (answer 200 None) "oops"))
                 (run [Call GET "/products" None; Call GET "/orders" None]
                      (boot sample_connection))))
    ≡ₚ uncaught (step (Respond 1 (Answered (answer 200 None) "oops"))
                   (step (Respond 0 (Answered (answer 200 None) "<html>"))
                      (run [Call GET "/products" None; Call GET "/orders" None]
                           (boot sample_connection)))).
Proof.
  destruct (answers_commute
              [Call GET "/products" None; Call GET "/orders" None]
              sample_connection 0 1
              {| flight_options := getRequestOptions sample_connection GET "/products" None;
                 flight_promise := 0; flight_endpoint := "/products" |}
              {| flight_options := getRequestOptions sample_connection GET "/orders" None;
                 flight_promise := 1; flight_endpoint := "/orders" |}
              (Answered (answer 200 None) "<html>")
              (Answered (answer 200 None) "oops")
              ltac:(discriminate) eq_refl eq_refl)
    as (Hp & _ & _ & _ & Hu).
  split; [exact Hp | exact Hu].
Defined.

Lemma settled_promise_is_final_witness :
  outcome (run [Respond 0 (Answered (answer 500 None) "Internal Error");
                Call GET "/products/42" None;
                Respond 1 (Failed (Error "socket hang up"))]
               (run [Call GET "/products/42" None;
                     Respond 0 (Answered (answer 200 None)
                                         (json_text "{'id': 42, 'name': 'Widget'}"))]
                    (boot sample_connection))) 0
  = Fulfilled widget.
Proof.
  apply (settled_promise_is_final
           [Respond 0 (Answered (answer 500 None) "Internal Error");
            Call GET "/products/42" None;
            Respond 1 (Failed (Error "socket hang up"))]
           (run [Call GET "/products/42" None;
                 Respond 0 (Answered (answer 200 None)
                                     (json_text "{'id': 42, 'name': 'Widget'}"))]
                (boot sample_connection)) 0 (Fulfilled widget)).
  - reflexivity.
  - left. exists widget. reflexivity.
Defined.

Lemma requests_target_store_root_witness :
  exists a h k t,
    api sample_config = Some a /\ hash sample_config = Some h /\
    cid sample_config = Some k /\ token sample_config = Some t /\
    String.prefix ((((a +:+ "/stores/") +:+ h) +:+ "/v2") +:+ "/")
      (url (getRequestOptions sample_connection DELETE "products/7" None)) = true /\
    headers (getRequestOptions sample_connection DELETE "products/7" None)
      = [ ("Accept", Some "application/json");
          ("Content-Type", Some "application/json");
          ("X-Auth-Client", Some k);
          ("X-Auth-Token", Some t) ].
Proof.
  exact (requests_target_store_root sample_config sample_connection
           [Call DELETE "products/7" None] 0
           {| flight_options := getRequestOptions sample_connection DELETE "products/7" None;
              flight_promise := 0; flight_endpoint := "products/7" |}
           eq_refl eq_refl).
Defined.

End Runs.
